(** * swc: a word, line, byte and character counter (src/swc/cli.py)

    A shallow embedding of [cli.py] and the properties of its counting
    routine, its byte-versus-char resolver, its output formatter and its
    capture of the order of the command-line flags.

    Python values are modelled as follows.
    - A [str] is the list of its code points ([pystr]); a code point is a
      natural number below [0x110000].  Lone surrogates (U+D800..U+DFFF) are
      legal elements of a [str], and the strict UTF-8 codec refuses them.
    - [bytes] is a list of numbers below 256.
    - [len] is [List.length]; [str(n)] of a non-negative [int] is its decimal
      numeral.
    - An exception is a value of [exn]; a call that can raise returns a
      [result].
    - The class attribute [OrderedOptionsCommand._options], a list object
      shared by every invocation of the command in one interpreter, is the
      one field of the process state [process]. *)

From Stdlib Require Import List NArith Arith Bool Lia String Ascii Decimal DecimalNat.
Import ListNotations.

Set Implicit Arguments.

(** ** Python primitives *)

Module Py.

Definition codepoint := N.
Definition pystr := list codepoint.
Definition pybytes := list N.

(** A string literal of the source, as a [pystr]. *)
Definition lit (s : string) : pystr :=
  map N_of_ascii (list_ascii_of_string s).

Definition TAB : pystr := [9%N].
Definition NEWLINE : codepoint := 10%N.

(** The elements a [str] can hold: [range(0x110000)]. *)
Definition is_codepoint (c : codepoint) : Prop := (c < 0x110000)%N.
Definition wf_str (s : pystr) : Prop := Forall is_codepoint s.

Definition is_surrogate (c : codepoint) : bool :=
  ((0xD800 <=? c) && (c <=? 0xDFFF))%N.

Definition is_ascii (c : codepoint) : bool := (c <? 0x80)%N.

Fixpoint str_eqb (s t : pystr) : bool :=
  match s, t with
  | [], [] => true
  | a :: s', b :: t' => N.eqb a b && str_eqb s' t'
  | _, _ => false
  end.

(** [x == y] where [x] may be [None] and [y] is a [str]. *)
Definition opt_str_eqb (x : option pystr) (y : pystr) : bool :=
  match x with
  | Some s => str_eqb s y
  | None => false
  end.

(** Exceptions and fallible calls: the error of the codec, click's usage
    errors (an option that does not exist, a value given to a flag, a
    parameter that cannot be converted, arguments left over) and the [Exit]
    by which the callback of an eager option such as [--help] ends the
    invocation. *)
Inductive exn : Type :=
| UnicodeEncodeError (position : nat) (c : codepoint)
| NoSuchOption (opt : pystr)
| BadOptionUsage (opt : pystr)
| BadParameter (value : pystr)
| ExtraArguments (extra : list pystr)
| Exit (param : pystr).

Inductive result (A : Type) : Type :=
| Ok (a : A)
| Raise (e : exn).
Arguments Ok {A} a.
Arguments Raise {A} e.

Definition bind {A B : Type} (r : result A) (k : A -> result B) : result B :=
  match r with
  | Ok a => k a
  | Raise e => Raise e
  end.

Notation "x <- r ;; k" := (bind r (fun x => k))
  (at level 61, r at next level, right associativity).

(** [str(n)] for a non-negative [int]. *)
Fixpoint digits (u : Decimal.uint) : pystr :=
  match u with
  | Nil => []
  | D0 u => 48%N :: digits u
  | D1 u => 49%N :: digits u
  | D2 u => 50%N :: digits u
  | D3 u => 51%N :: digits u
  | D4 u => 52%N :: digits u
  | D5 u => 53%N :: digits u
  | D6 u => 54%N :: digits u
  | D7 u => 55%N :: digits u
  | D8 u => 56%N :: digits u
  | D9 u => 57%N :: digits u
  end.

Definition str_of_int (n : nat) : pystr := digits (Nat.to_uint n).

(** [s.encode("utf-8")], the strict codec: one to four bytes per code point,
    [UnicodeEncodeError] at the first surrogate. *)
Definition encode_char (c : codepoint) : option pybytes :=
  (if c <? 0x80 then Some [c]
   else if c <? 0x800 then
     Some [N.lor 0xC0 (N.shiftr c 6); N.lor 0x80 (N.land c 0x3F)]
   else if c <? 0x10000 then
     if is_surrogate c then None
     else Some [N.lor 0xE0 (N.shiftr c 12);
                N.lor 0x80 (N.land (N.shiftr c 6) 0x3F);
                N.lor 0x80 (N.land c 0x3F)]
   else
     Some [N.lor 0xF0 (N.shiftr c 18);
           N.lor 0x80 (N.land (N.shiftr c 12) 0x3F);
           N.lor 0x80 (N.land (N.shiftr c 6) 0x3F);
           N.lor 0x80 (N.land c 0x3F)])%N.

Fixpoint encode_from (pos : nat) (s : pystr) : result pybytes :=
  match s with
  | [] => Ok []
  | c :: r =>
      match encode_char c with
      | None => Raise (UnicodeEncodeError pos c)
      | Some bs => rest <- encode_from (S pos) r ;; Ok (bs ++ rest)
      end
  end.

Definition encode_utf8 (s : pystr) : result pybytes := encode_from 0 s.

(** [c.isspace()] for one code point, which is what [str.split()] tests. *)
Definition isspace (c : codepoint) : bool :=
  (((0x09 <=? c) && (c <=? 0x0D))
   || ((0x1C <=? c) && (c <=? 0x20))
   || (c =? 0x85) || (c =? 0xA0) || (c =? 0x1680)
   || ((0x2000 <=? c) && (c <=? 0x200A))
   || (c =? 0x2028) || (c =? 0x2029) || (c =? 0x202F)
   || (c =? 0x205F) || (c =? 0x3000))%N.

(** [s.split()]: the words of [s], cut at runs of whitespace.  [word] holds,
    in reverse, the characters of the word being read. *)
Definition flush (word : pystr) : list pystr :=
  match word with
  | [] => []
  | _ :: _ => [List.rev word]
  end.

Fixpoint split_from (word : pystr) (s : pystr) : list pystr :=
  match s with
  | [] => flush word
  | c :: r =>
      if isspace c then flush word ++ split_from [] r
      else split_from (c :: word) r
  end.

Definition split (s : pystr) : list pystr := split_from [] s.

(** [sep.join(items)]. *)
Fixpoint join (sep : pystr) (items : list pystr) : pystr :=
  match items with
  | [] => []
  | [x] => x
  | x :: rest => x ++ sep ++ join sep rest
  end.

(** [any(flags)]. *)
Definition any (flags : list bool) : bool := existsb (fun b => b) flags.

End Py.

Import Py.

(** ** The command-line layer: click's option parser

    [click] is a library the command is built on.  The model below covers
    what the command declares: the flags [-c]/[--count], [-l]/[--lines],
    [-w]/[--words], [-m]/[--chars], the options [--help] and [--version]
    that click adds, and the one argument [file].

    [parse_options] is the walk of the parser over the tokens: a token that
    starts with a dash and is longer than the dash is an option, long when
    it starts with two dashes (cut at its first [=]), otherwise a bundle of
    short flags read letter by letter; [--] ends the options; every other
    token is positional.  It returns the names of the options in the order
    they were typed and the positional tokens, or the usage error of the
    first token it cannot read.

    [parse_order] is the third component of [parser.parse_args(args)]: the
    names of the options, then [file], which the parser processes whether
    or not a path was given.

    [command_parse_args] is [Command.parse_args]: it parses again, runs the
    callback of the first eager option typed ([--help] and [--version] print
    and leave with [Exit]), converts the [file] argument, and refuses
    positional tokens beyond the first.  What the conversion of [file]
    gives is the parameter [opened]: the open file, [sys.stdin] when no
    path or [-] is given, or the [BadParameter] of a path that cannot be
    opened. *)

Module Click.

Definition option_name (tok : pystr) : option pystr :=
  if str_eqb tok (lit "-c") || str_eqb tok (lit "--count") then Some (lit "count")
  else if str_eqb tok (lit "-l") || str_eqb tok (lit "--lines") then Some (lit "lines")
  else if str_eqb tok (lit "-w") || str_eqb tok (lit "--words") then Some (lit "words")
  else if str_eqb tok (lit "-m") || str_eqb tok (lit "--chars") then Some (lit "chars")
  else if str_eqb tok (lit "--help") then Some (lit "help")
  else if str_eqb tok (lit "--version") then Some (lit "version")
  else None.

Definition DASH : codepoint := 45%N.
Definition EQUALS : codepoint := 61%N.

(** [arg.split("=", 1)[0]] and ["=" in arg]. *)
Fixpoint before_equals (tok : pystr) : pystr :=
  match tok with
  | [] => []
  | c :: rest => if N.eqb c EQUALS then [] else c :: before_equals rest
  end.

Definition has_equals (tok : pystr) : bool := existsb (N.eqb EQUALS) tok.

(** A token that starts with two dashes. *)
Definition long_option (tok : pystr) : result (list pystr) :=
  let opt := before_equals tok in
  match option_name opt with
  | None => Raise (NoSuchOption opt)
  | Some name =>
      if has_equals tok then Raise (BadOptionUsage opt) else Ok [name]
  end.

(** The flags bundled in a token such as [-lw], letter by letter. *)
Fixpoint bundled (letters : pystr) : result (list pystr) :=
  match letters with
  | [] => Ok []
  | ch :: rest =>
      match option_name [DASH; ch] with
      | None => Raise (NoSuchOption [DASH; ch])
      | Some name => names <- bundled rest ;; Ok (name :: names)
      end
  end.

Fixpoint parse_options (args : list pystr)
  : result (list pystr * list pystr) :=
  match args with
  | [] => Ok ([], [])
  | tok :: rest =>
      if str_eqb tok (lit "--") then Ok ([], rest)
      else
        match tok with
        | d1 :: d2 :: letters =>
            if N.eqb d1 DASH then
              names <- (if N.eqb d2 DASH then long_option tok
                        else bundled (d2 :: letters)) ;;
              parsed <- parse_options rest ;;
              Ok (names ++ fst parsed, snd parsed)
            else
              parsed <- parse_options rest ;;
              Ok (fst parsed, tok :: snd parsed)
        | _ =>
            parsed <- parse_options rest ;;
            Ok (fst parsed, tok :: snd parsed)
        end
  end.

Definition parse_order (args : list pystr) : result (list pystr) :=
  parsed <- parse_options args ;; Ok (fst parsed ++ [lit "file"]).

Definition is_eager (param : pystr) : bool :=
  str_eqb param (lit "help") || str_eqb param (lit "version").

Definition command_parse_args {File : Type}
    (args : list pystr) (opened : result File)
  : result (list pystr * File) :=
  parsed <- parse_options args ;;
  let order := fst parsed ++ [lit "file"] in
  match find is_eager order with
  | Some param => Raise (Exit param)
  | None =>
      file <- opened ;;
      match snd parsed with
      | _ :: extra1 :: extra => Raise (ExtraArguments (extra1 :: extra))
      | _ => Ok (order, file)
      end
  end.

(** The value click gives a flag: whether it was among the options typed. *)
Definition flag (name : pystr) (order : list pystr) : bool :=
  existsb (str_eqb name) order.

End Click.

(** ** cli.py *)

(** The text file handed to [cli]: [file.name] and what [file.read()]
    returns. *)
Record TextIOWrapper : Type := { name : pystr; contents : pystr }.

Definition read (file : TextIOWrapper) : pystr := contents file.

(** The state of the interpreter that outlives one invocation of the
    command: the list bound to the class attribute
    [OrderedOptionsCommand._options]. *)
Record process : Type := { _options : list pystr }.

(** The class body runs once, at import: [_options = []]. *)
Definition at_import : process := {| _options := [] |}.

Definition get_wc_values (text : pystr)
  : result (pystr * pystr * pystr * pystr) :=
  encoded <- encode_utf8 text ;;
  let byte_count := str_of_int (List.length encoded) in
  let line_count :=
    str_of_int
      (List.length (map (fun _ => lit "c")
                   (filter (fun c => N.eqb c NEWLINE) text))) in
  let word_count := str_of_int (List.length (split text)) in
  let char_count := str_of_int (List.length text) in
  Ok (byte_count, line_count, word_count, char_count).

(** One turn of the loop of [byte_or_char]. *)
Definition byte_or_char_step (last_param : option pystr) (param : pystr)
  : option pystr :=
  let last_param :=
    if str_eqb param (lit "count") then Some (lit "count") else last_param in
  let last_param :=
    if str_eqb param (lit "chars") then Some (lit "chars") else last_param in
  last_param.

Definition byte_or_char (ordered_params : list pystr) : option pystr :=
  fold_left byte_or_char_step ordered_params None.

(** [values] is the tuple [get_wc_values] returns, four numerals: in
    [parse_file], the one caller, and as ["\t".join] wants its items. *)
Definition create_output
    (params : bool * bool * bool * bool)
    (values : pystr * pystr * pystr * pystr)
    (last_param : option pystr) : pystr :=
  let '(count, lines, words, chars) := params in
  let '(byte_count, line_count, word_count, char_count) := values in
  if negb (any [count; lines; words; chars]) then
    line_count ++ TAB ++ word_count ++ TAB ++ byte_count
  else
    let output := [] in
    let output := if lines then output ++ [line_count] else output in
    let output := if words then output ++ [word_count] else output in
    let output :=
      if count && chars then
        output ++ [if opt_str_eqb last_param (lit "count")
                   then byte_count else char_count]
      else
        let output := if count then output ++ [byte_count] else output in
        let output := if chars then output ++ [char_count] else output in
        output in
    join TAB output.

Definition parse_file
    (file : TextIOWrapper)
    (params : bool * bool * bool * bool)
    (ordered_params : list pystr) : result pystr :=
  let text := read file in
  let last_param := byte_or_char ordered_params in
  values <- get_wc_values text ;;
  let output := create_output params values last_param in
  let output_w_filename := output ++ lit " " ++ name file in
  Ok output_w_filename.

(** [OrderedOptionsCommand.parse_args].  The parser of the command reads
    the arguments; if it raises, nothing else happens.  Otherwise every
    name of its order is appended to the shared list, and only then does
    click's own [parse_args] run, which may still end the invocation.  What
    that call leaves in the context is returned: the order the flags are
    read from and the file. *)
Definition parse_args (st : process) (args : list pystr)
    (opened : result TextIOWrapper)
  : result (list pystr * TextIOWrapper) * process :=
  match Click.parse_order args with
  | Raise e => (Raise e, st)
  | Ok param_order =>
      (Click.command_parse_args args opened,
       {| _options :=
            fold_left (fun opts param => opts ++ [param])
                      param_order (_options st) |})
  end.

(** The body of [cli], which reads the shared list. *)
Definition cli (st : process) (file : TextIOWrapper)
    (count lines words chars : bool) : result pystr :=
  let params := (count, lines, words, chars) in
  parse_file file params (_options st).

(** One invocation of the command in a running interpreter: the arguments
    are parsed, the flags become booleans, [cli] runs and its output is
    echoed.  The process state is returned next to the output. *)
Definition invoke (st : process) (args : list pystr)
    (opened : result TextIOWrapper) : result pystr * process :=
  match parse_args st args opened with
  | (Raise e, st') => (Raise e, st')
  | (Ok (order, file), st') =>
      (cli st' file
           (Click.flag (lit "count") order) (Click.flag (lit "lines") order)
           (Click.flag (lit "words") order) (Click.flag (lit "chars") order),
       st')
  end.

(** The flag order that an invocation on [args], started in the process
    state [st], hands to [parse_file]. *)
Definition flag_order_seen (st : process) (args : list pystr)
    (opened : result TextIOWrapper) : list pystr :=
  _options (snd (parse_args st args opened)).

(** ** The specification's vocabulary

    The definitions below follow the words of the specification; the
    theorems compare them with the functions of [cli.py] above. *)

(** The resolver's answer: which of the two flags was typed last. *)
Inductive decision : Type := BYTES | CHARS | NONE.

Definition is_bytes_flag (tok : pystr) : bool := str_eqb tok (lit "count").
Definition is_chars_flag (tok : pystr) : bool := str_eqb tok (lit "chars").

(** "Scan FlagOrder from first to last; maintain a last-seen marker; update
    the marker to BYTES whenever a bytes-flag token is seen, to CHARS
    whenever a chars-flag token is seen; ignore all other tokens; return the
    final marker." *)
Fixpoint scan (marker : decision) (flag_order : list pystr) : decision :=
  match flag_order with
  | [] => marker
  | tok :: rest =>
      if is_bytes_flag tok then scan BYTES rest
      else if is_chars_flag tok then scan CHARS rest
      else scan marker rest
  end.

Definition resolver (flag_order : list pystr) : decision := scan NONE flag_order.

(** How [cli.py] writes a decision: ["count"], ["chars"] or [None]. *)
Definition last_param_of (d : decision) : option pystr :=
  match d with
  | BYTES => Some (lit "count")
  | CHARS => Some (lit "chars")
  | NONE => None
  end.

(** The shared bytes/chars slot of the output line. *)
Definition bytes_chars_field (count chars : bool) (d : decision)
    (byte_count char_count : pystr) : list pystr :=
  match count, chars with
  | true, true =>
      match d with
      | BYTES => [byte_count]
      | CHARS | NONE => [char_count]
      end
  | true, false => [byte_count]
  | false, true => [char_count]
  | false, false => []
  end.

(** "Lines (if requested), words (if requested), then the bytes/chars
    field"; a field that is not requested is left out. *)
Definition requested_fields (params : bool * bool * bool * bool)
    (values : pystr * pystr * pystr * pystr) (d : decision) : list pystr :=
  let '(count, lines, words, chars) := params in
  let '(byte_count, line_count, word_count, char_count) := values in
  (if lines then [line_count] else [])
  ++ (if words then [word_count] else [])
  ++ bytes_chars_field count chars d byte_count char_count.

(** With no flag at all the line shows lines, words and bytes. *)
Definition output_fields (params : bool * bool * bool * bool)
    (values : pystr * pystr * pystr * pystr) (d : decision) : list pystr :=
  let '(count, lines, words, chars) := params in
  let '(byte_count, line_count, word_count, char_count) := values in
  if count || lines || words || chars then requested_fields params values d
  else [line_count; word_count; byte_count].

(** "Number of newline characters occurring in the text." *)
Definition newlines (text : pystr) : nat := count_occ N.eq_dec text NEWLINE.

(** "Number of maximal runs of non-whitespace characters": position [i]
    starts a run when the character there is not whitespace and it is the
    first of the text or follows a whitespace character.  [before] tells
    whether the text is taken to follow whitespace; for a whole text it
    does. *)
Definition starts_run (before : bool) (text : pystr) (i : nat) : bool :=
  negb (isspace (nth i text 0%N))
  && match i with
     | O => before
     | S j => isspace (nth j text 0%N)
     end.

Definition runs_after (before : bool) (text : pystr) : nat :=
  List.length (filter (starts_run before text) (seq 0 (List.length text))).

Definition maximal_runs (text : pystr) : nat := runs_after true text.

Definition no_surrogate (text : pystr) : Prop :=
  Forall (fun c => is_surrogate c = false) text.

Definition pure_ascii (text : pystr) : Prop :=
  Forall (fun c => is_ascii c = true) text.

(** The text of the end-to-end example, with its newline. *)
Definition hello : pystr :=
  lit "Hello world" ++ [NEWLINE] ++ lit "This is a test".

(** ** Further vocabulary: runs of invocations, shapes of the output *)

(** Successive invocations in one interpreter, each with its arguments and
    with what its [file] argument converts to; what is left is the process
    state after the last. *)
Definition invoke_all (st : process)
    (runs : list (list pystr * result TextIOWrapper)) : process :=
  fold_left (fun st run => snd (invoke st (fst run) (snd run))) runs st.

(** What the parser of the command reads from each argument list that it
    can read, one after the other. *)
Definition parsed_orders (runs : list (list pystr * result TextIOWrapper))
  : list pystr :=
  flat_map (fun run =>
              match Click.parse_order (fst run) with
              | Ok order => order
              | Raise _ => []
              end) runs.

(** The number of counts on the output line for a choice of flags. *)
Definition field_count (params : bool * bool * bool * bool) : nat :=
  let '(count, lines, words, chars) := params in
  if count || lines || words || chars then
    (if lines then 1 else 0) + (if words then 1 else 0)
    + (if count || chars then 1 else 0)
  else 3.

Definition tabs (s : pystr) : nat := count_occ N.eq_dec s 9%N.

(** Whether the last word of [s] and the first word of [t] become one word
    of [s ++ t]: [s] ends and [t] starts with a character that is not
    whitespace. *)
Definition glued (s t : pystr) : bool :=
  negb (isspace (last s 32%N)) && negb (isspace (hd 32%N t)).

(** ** Strings and their equality test *)

Lemma str_eqb_eq (s t : pystr) : str_eqb s t = true <-> s = t.
Proof.
  revert t; induction s as [|a s IH]; intros [|b t]; simpl;
    try (split; [discriminate | discriminate]); try tauto.
  rewrite andb_true_iff, N.eqb_eq, IH.
  split; [intros [-> ->]; reflexivity | intros H; inversion H; auto].
Qed.

Lemma str_eqb_refl (s : pystr) : str_eqb s s = true.
Proof. apply str_eqb_eq; reflexivity. Qed.

(** ** The resolver *)

Section Resolver.

(** The loop of [byte_or_char], started from any marker, follows the scan of
    the specification. *)
Lemma byte_or_char_step_scan (flag_order : list pystr) (d : decision) :
  fold_left byte_or_char_step flag_order (last_param_of d)
  = last_param_of (scan d flag_order).
Proof.
  revert d; induction flag_order as [|tok rest IH]; intros d; simpl.
  - reflexivity.
  - unfold byte_or_char_step, is_bytes_flag, is_chars_flag.
    destruct (str_eqb tok (lit "count")) eqn:Hcount.
    + apply str_eqb_eq in Hcount; subst tok.
      replace (str_eqb (lit "count") (lit "chars")) with false by reflexivity.
      apply (IH BYTES).
    + destruct (str_eqb tok (lit "chars")).
      * apply (IH CHARS).
      * apply IH.
Qed.

Lemma scan_app (pre post : list pystr) (d : decision) :
  scan d (pre ++ post) = scan (scan d pre) post.
Proof.
  revert d; induction pre as [|tok pre IH]; intros d; simpl.
  - reflexivity.
  - destruct (is_bytes_flag tok); [apply IH|].
    destruct (is_chars_flag tok); apply IH.
Qed.

(** Tokens that are neither flag leave the marker as it is. *)
Lemma scan_ignores (post : list pystr) (d : decision) :
  Forall (fun tok => is_bytes_flag tok = false /\ is_chars_flag tok = false) post ->
  scan d post = d.
Proof.
  induction 1 as [|tok post [Hb Hc] _ IH]; simpl.
  - reflexivity.
  - rewrite Hb, Hc; exact IH.
Qed.

(** Whatever was accumulated before, a flag order that names one of the two
    flags decides alone. *)
Lemma scan_decided (flag_order : list pystr) (d : decision) :
  resolver flag_order <> NONE -> scan d flag_order = resolver flag_order.
Proof.
  unfold resolver; revert d.
  induction flag_order as [|tok rest IH]; intros d; simpl.
  - intros H; contradiction H; reflexivity.
  - destruct (is_bytes_flag tok); [reflexivity|].
    destruct (is_chars_flag tok); [reflexivity|].
    apply IH.
Qed.

End Resolver.

(** C2.  [byte_or_char] is the scan of the specification: it walks the flag
    order from first to last, sets the marker to ["count"] (BYTES) at every
    bytes-flag token and to ["chars"] (CHARS) at every chars-flag token,
    skips any other token and returns the last marker, [None] (NONE) when
    neither flag occurs.  The rightmost occurrence wins, whatever comes
    before it, and the four orders of the specification resolve to CHARS,
    BYTES, BYTES and NONE. *)
Theorem byte_or_char_scans_rightmost_wins :
  (forall flag_order, byte_or_char flag_order = last_param_of (resolver flag_order))
  /\ (forall pre post,
        Forall (fun tok => is_bytes_flag tok = false /\ is_chars_flag tok = false) post ->
        byte_or_char (pre ++ lit "count" :: post) = Some (lit "count")
        /\ byte_or_char (pre ++ lit "chars" :: post) = Some (lit "chars"))
  /\ (forall flag_order,
        Forall (fun tok => is_bytes_flag tok = false /\ is_chars_flag tok = false) flag_order ->
        byte_or_char flag_order = None)
  /\ byte_or_char [lit "count"; lit "chars"] = Some (lit "chars")
  /\ byte_or_char [lit "chars"; lit "count"] = Some (lit "count")
  /\ byte_or_char [lit "count"] = Some (lit "count")
  /\ byte_or_char [] = None.
Proof.
  assert (Hscan : forall flag_order,
             byte_or_char flag_order = last_param_of (resolver flag_order)).
  { intros flag_order. exact (byte_or_char_step_scan flag_order NONE). }
  split; [exact Hscan|].
  split.
  { intros pre post Hpost.
    rewrite !Hscan. unfold resolver. rewrite !scan_app. simpl.
    replace (is_bytes_flag (lit "count")) with true by reflexivity.
    replace (is_bytes_flag (lit "chars")) with false by reflexivity.
    replace (is_chars_flag (lit "chars")) with true by reflexivity.
    rewrite !(scan_ignores _ Hpost). split; reflexivity. }
  split.
  { intros flag_order Hnone. rewrite Hscan. unfold resolver.
    rewrite (scan_ignores _ Hnone). reflexivity. }
  repeat split; reflexivity.
Qed.

(** The second part of the statement, at the order [size, count, volume,
    chars, shape]. *)
Lemma byte_or_char_scans_rightmost_wins_witness :
  byte_or_char ([lit "size"; lit "count"; lit "volume"] ++ lit "chars" :: [lit "shape"])
  = Some (lit "chars").
Proof.
  apply (proj1 (proj2 byte_or_char_scans_rightmost_wins)
               [lit "size"; lit "count"; lit "volume"] [lit "shape"]).
  repeat constructor.
Defined.

(** ** The output formatter *)

(** With the two flags not both set, [last_param] is never read. *)
Lemma create_output_last_param_unread
    (count lines words chars : bool) (values : pystr * pystr * pystr * pystr)
    (last_param last_param' : option pystr) :
  count && chars = false ->
  create_output (count, lines, words, chars) values last_param
  = create_output (count, lines, words, chars) values last_param'.
Proof.
  intros H. destruct values as [[[b l] w] c]. unfold create_output.
  rewrite H. reflexivity.
Qed.

(** C3.  When at least one flag is requested, [create_output] joins with
    tabs the requested counts in the order lines, words, bytes/chars slot,
    and leaves out what was not requested.  The slot holds the byte count
    when both flags are set and the decision is BYTES, the char count when
    both are set and the decision is CHARS or NONE, the byte count when only
    bytes is set and the char count when only chars is set. *)
Theorem create_output_requested_fields
    (count lines words chars : bool)
    (values : pystr * pystr * pystr * pystr) (d : decision) :
  count || lines || words || chars = true ->
  create_output (count, lines, words, chars) values (last_param_of d)
  = join TAB (requested_fields (count, lines, words, chars) values d).
Proof.
  destruct values as [[[b l] w] c].
  intros Hany.
  destruct count, lines, words, chars, d; try discriminate Hany; reflexivity.
Qed.

Lemma create_output_requested_fields_witness :
  create_output (true, true, false, true)
                (lit "27", lit "1", lit "6", lit "23") (last_param_of CHARS)
  = join TAB (requested_fields (true, true, false, true)
                               (lit "27", lit "1", lit "6", lit "23") CHARS).
Proof.
  exact (@create_output_requested_fields
           true true false true
           (lit "27", lit "1", lit "6", lit "23") CHARS eq_refl).
Defined.

(** C6.  With no flag requested, [create_output] returns the line count,
    the word count and the byte count, in that order and separated by tabs,
    whatever the counts and whatever [last_param] is. *)
Theorem create_output_default
    (byte_count line_count word_count char_count : pystr)
    (last_param : option pystr) :
  create_output (false, false, false, false)
                (byte_count, line_count, word_count, char_count) last_param
  = line_count ++ TAB ++ word_count ++ TAB ++ byte_count.
Proof. reflexivity. Qed.

(** C10.  Unless the bytes flag and the chars flag are both requested, the
    output of [create_output] is the same for every [last_param], [None]
    and strings that name no flag included. *)
Theorem create_output_last_param_only_when_both
    (count lines words chars : bool) (values : pystr * pystr * pystr * pystr)
    (last_param last_param' : option pystr) :
  count && chars = false ->
  create_output (count, lines, words, chars) values last_param
  = create_output (count, lines, words, chars) values last_param'.
Proof. apply create_output_last_param_unread. Qed.

Lemma create_output_last_param_only_when_both_witness :
  create_output (true, true, false, false)
                (lit "1024", lit "50", lit "200", lit "980") (Some (lit "count"))
  = create_output (true, true, false, false)
                  (lit "1024", lit "50", lit "200", lit "980") (Some (lit "volume")).
Proof.
  exact (@create_output_last_param_only_when_both
           true true false false
           (lit "1024", lit "50", lit "200", lit "980")
           (Some (lit "count")) (Some (lit "volume")) eq_refl).
Defined.

(** ** The counter *)

Section Counter.

Lemma digits_inj (u v : Decimal.uint) : digits u = digits v -> u = v.
Proof.
  revert v; induction u; intros v; destruct v; simpl; intros H;
    try discriminate H; try reflexivity;
    injection H as H; f_equal; apply IHu; exact H.
Qed.

(** Distinct numbers print differently. *)
Lemma str_of_int_inj (n m : nat) : str_of_int n = str_of_int m -> n = m.
Proof.
  unfold str_of_int. intros H.
  apply DecimalNat.Unsigned.to_uint_inj, digits_inj, H.
Qed.

(** The code units of one character. *)
Lemma encode_char_length (c : codepoint) (bs : pybytes) :
  encode_char c = Some bs ->
  1 <= List.length bs /\ (List.length bs = 1 <-> is_ascii c = true).
Proof.
  unfold encode_char, is_ascii.
  destruct (c <? 0x80)%N.
  - intros H; injection H as <-; simpl. split; [lia | tauto].
  - destruct (c <? 0x800)%N.
    + intros H; injection H as <-; simpl.
      split; [lia | split; [lia | discriminate]].
    + destruct (c <? 0x10000)%N.
      * destruct (is_surrogate c); [discriminate|].
        intros H; injection H as <-; simpl.
        split; [lia | split; [lia | discriminate]].
      * intros H; injection H as <-; simpl.
        split; [lia | split; [lia | discriminate]].
Qed.

Lemma encode_char_surrogate (c : codepoint) :
  encode_char c = None <-> is_surrogate c = true.
Proof.
  unfold encode_char, is_surrogate.
  destruct (c <? 0x80)%N eqn:H1; [apply N.ltb_lt in H1|apply N.ltb_ge in H1].
  { split; [discriminate|].
    rewrite andb_true_iff, N.leb_le; intros [H _]; lia. }
  destruct (c <? 0x800)%N eqn:H2; [apply N.ltb_lt in H2|apply N.ltb_ge in H2].
  { split; [discriminate|].
    rewrite andb_true_iff, N.leb_le; intros [H _]; lia. }
  destruct (c <? 0x10000)%N eqn:H3; [apply N.ltb_lt in H3|apply N.ltb_ge in H3].
  { destruct ((0xD800 <=? c)%N && (c <=? 0xDFFF)%N);
      split; try discriminate; reflexivity. }
  split; [discriminate|].
  rewrite andb_true_iff, !N.leb_le; intros [_ H]; lia.
Qed.

(** Encoding succeeds on a text without surrogates, from any position. *)
Lemma encode_from_total (text : pystr) (pos : nat) :
  no_surrogate text -> exists encoded, encode_from pos text = Ok encoded.
Proof.
  intros H; revert pos; induction H as [|c text Hc _ IH]; intros pos; simpl.
  - eexists; reflexivity.
  - destruct (encode_char c) as [bs|] eqn:Hbs.
    + destruct (IH (S pos)) as [rest ->]. simpl. eexists; reflexivity.
    + apply encode_char_surrogate in Hbs. congruence.
Qed.

(** It succeeds on no other text. *)
Lemma encode_from_ok_no_surrogate (text : pystr) (pos : nat) (encoded : pybytes) :
  encode_from pos text = Ok encoded -> no_surrogate text.
Proof.
  revert pos encoded; induction text as [|c text IH]; intros pos encoded; simpl.
  - intros _; constructor.
  - destruct (encode_char c) as [bs|] eqn:Hbs; [|discriminate].
    destruct (encode_from (S pos) text) as [rest|] eqn:Hrest; [|discriminate].
    intros _. constructor.
    + destruct (is_surrogate c) eqn:Hs; [|reflexivity].
      apply encode_char_surrogate in Hs. congruence.
    + exact (IH _ _ Hrest).
Qed.

(** An encoded text has at least one byte per character, and exactly one
    per character when every character is ASCII and only then. *)
Lemma encode_from_length (text : pystr) (pos : nat) (encoded : pybytes) :
  encode_from pos text = Ok encoded ->
  List.length text <= List.length encoded
  /\ (List.length encoded = List.length text <-> pure_ascii text).
Proof.
  revert pos encoded; induction text as [|c text IH]; intros pos encoded; simpl.
  - intros H; injection H as <-; simpl.
    split; [lia | split; [constructor | reflexivity]].
  - destruct (encode_char c) as [bs|] eqn:Hbs; [|discriminate].
    destruct (encode_from (S pos) text) as [rest|] eqn:Hrest; [|discriminate].
    simpl. intros H; injection H as <-.
    destruct (encode_char_length _ Hbs) as [Hone Hascii].
    destruct (IH _ _ Hrest) as [Hle Heq].
    rewrite length_app. split; [lia|]. split.
    + intros Hlen. constructor.
      * apply Hascii; lia.
      * apply Heq; lia.
    + intros Hall. inversion Hall as [|? ? Hc Hrest']; subst.
      apply Hascii in Hc. apply Heq in Hrest'. lia.
Qed.

(** The comprehension [["c" for c in text if c == "\n"]] has one element per
    newline. *)
Lemma comprehension_length (text : pystr) :
  List.length (map (fun _ => lit "c") (filter (fun c => N.eqb c NEWLINE) text))
  = newlines text.
Proof.
  unfold newlines. rewrite length_map.
  induction text as [|c text IH]; simpl; [reflexivity|].
  destruct (N.eqb_spec c NEWLINE) as [->|Hne].
  - destruct (N.eq_dec NEWLINE NEWLINE) as [_|Hne]; [|contradiction Hne; reflexivity].
    simpl; rewrite IH; reflexivity.
  - destruct (N.eq_dec c NEWLINE) as [He|_]; [contradiction (Hne He)|exact IH].
Qed.

Lemma runs_after_cons (before : bool) (c : codepoint) (text : pystr) :
  runs_after before (c :: text)
  = (if negb (isspace c) && before then 1 else 0) + runs_after (isspace c) text.
Proof.
  unfold runs_after.
  change (seq 0 (List.length (c :: text)))
    with (0 :: seq 1 (List.length text)).
  rewrite <- seq_shift.
  change (filter (starts_run before (c :: text)) (0 :: map S (seq 0 (List.length text))))
    with (if negb (isspace c) && before
          then 0 :: filter (starts_run before (c :: text)) (map S (seq 0 (List.length text)))
          else filter (starts_run before (c :: text)) (map S (seq 0 (List.length text)))).
  assert (Hshift :
    List.length (filter (starts_run before (c :: text)) (map S (seq 0 (List.length text))))
    = List.length (filter (starts_run (isspace c) text) (seq 0 (List.length text)))).
  { rewrite filter_map_swap, length_map.
    rewrite (filter_ext _ (starts_run (isspace c) text)); [reflexivity|].
    intros [|i]; reflexivity. }
  destruct (negb (isspace c) && before); simpl List.length; rewrite Hshift; reflexivity.
Qed.

(** The words [split] returns are as many as the maximal runs of
    non-whitespace characters; a word under way counts for one. *)
Lemma split_from_length (text word : pystr) :
  List.length (split_from word text)
  = List.length (flush word)
    + runs_after (match word with [] => true | _ :: _ => false end) text.
Proof.
  revert word; induction text as [|c text IH]; intros word.
  - simpl. unfold runs_after. simpl. lia.
  - rewrite runs_after_cons. simpl split_from.
    destruct (isspace c) eqn:Hc; simpl negb; simpl andb.
    + rewrite length_app, (IH []). simpl. lia.
    + rewrite (IH (c :: word)). destruct word; simpl; lia.
Qed.

Lemma split_length (text : pystr) :
  List.length (split text) = maximal_runs text.
Proof. unfold split, maximal_runs. rewrite split_from_length. reflexivity. Qed.

(** No word of [split] is empty or holds a whitespace character. *)
Lemma split_from_words (text word : pystr) :
  Forall (fun c => isspace c = false) word ->
  Forall (fun w => w <> [] /\ Forall (fun c => isspace c = false) w)
         (split_from word text).
Proof.
  revert word; induction text as [|c text IH]; intros word Hword; simpl.
  - destruct word as [|a word]; simpl; constructor; [|constructor].
    split.
    + intros H. apply (f_equal (@List.length _)) in H.
      simpl in H. rewrite length_app in H. simpl in H. lia.
    + apply Forall_rev with (l := a :: word). exact Hword.
  - destruct (isspace c) eqn:Hc.
    + apply Forall_app. split; [|apply IH; constructor].
      destruct word as [|a word]; simpl; constructor; [|constructor].
      split.
      * intros H. apply (f_equal (@List.length _)) in H.
        simpl in H. rewrite length_app in H. simpl in H. lia.
      * apply Forall_rev with (l := a :: word). exact Hword.
    + apply IH. constructor; assumption.
Qed.

End Counter.

(** C5, as the code has it.  On a text without surrogate code points
    [get_wc_values] succeeds and returns, as decimal numerals, the length of
    the UTF-8 encoding of the text, the number of its newline characters (so
    a last line without a newline is not counted), the number of its maximal
    runs of non-whitespace characters, which are the words of [split], none
    of them empty, and the number of its characters.  The words of [""] are
    0 and those of [" a  b \tc\n"] are 3, and on the empty text the four
    counts are 0.  Nothing is said here of a text that holds a surrogate. *)
Theorem get_wc_values_counts (text : pystr) :
  no_surrogate text ->
  (exists encoded,
      encode_utf8 text = Ok encoded
      /\ get_wc_values text
         = Ok (str_of_int (List.length encoded),
               str_of_int (newlines text),
               str_of_int (maximal_runs text),
               str_of_int (List.length text)))
  /\ List.length (split text) = maximal_runs text
  /\ Forall (fun w => w <> [] /\ Forall (fun c => isspace c = false) w)
            (split text)
  /\ List.length (split (lit "")) = 0
  /\ List.length (split (lit " a  b " ++ TAB ++ lit "c" ++ [NEWLINE])) = 3
  /\ get_wc_values (lit "") = Ok (lit "0", lit "0", lit "0", lit "0").
Proof.
  intros Hs. split.
  { destruct (encode_from_total 0 Hs) as [encoded Henc].
    exists encoded. split; [exact Henc|].
    unfold get_wc_values, encode_utf8. rewrite Henc. simpl bind.
    rewrite comprehension_length, split_length. reflexivity. }
  split; [apply split_length|].
  split; [apply split_from_words; constructor|].
  repeat split; reflexivity.
Qed.

Lemma get_wc_values_counts_witness :
  exists encoded,
    encode_utf8 hello = Ok encoded
    /\ get_wc_values hello
       = Ok (str_of_int (List.length encoded),
             str_of_int (newlines hello),
             str_of_int (maximal_runs hello),
             str_of_int (List.length hello)).
Proof.
  assert (Hs : no_surrogate hello) by (repeat constructor).
  exact (proj1 (get_wc_values_counts Hs)).
Defined.

(** C5 as stated fails: [get_wc_values] does not succeed on every string.
    On the one-character string that holds the lone surrogate U+D800
    ([chr(0xD800)]), and on the one that holds U+DC80, which is what the
    interpreter makes of an undecodable byte read with the
    [surrogateescape] handler, the UTF-8 codec raises. *)
Lemma get_wc_values_raises_on_surrogate :
  wf_str [0xD800%N]
  /\ get_wc_values [0xD800%N] = Raise (UnicodeEncodeError 0 0xD800%N)
  /\ wf_str [0xDC80%N]
  /\ get_wc_values [0xDC80%N] = Raise (UnicodeEncodeError 0 0xDC80%N).
Proof. repeat split; try reflexivity; repeat constructor. Qed.

(** C7.  Whenever [get_wc_values] returns, its byte count is at least its
    char count, and the two are equal exactly when every character of the
    text is ASCII; the numerals themselves are then equal too. *)
Theorem byte_count_ge_char_count
    (text byte_count line_count word_count char_count : pystr) :
  get_wc_values text = Ok (byte_count, line_count, word_count, char_count) ->
  exists nbytes nchars,
    byte_count = str_of_int nbytes
    /\ char_count = str_of_int nchars
    /\ nchars = List.length text
    /\ nchars <= nbytes
    /\ (nbytes = nchars <-> pure_ascii text)
    /\ (byte_count = char_count <-> pure_ascii text).
Proof.
  unfold get_wc_values, encode_utf8.
  destruct (encode_from 0 text) as [encoded|] eqn:Henc; [|discriminate].
  simpl bind. intros H; injection H as <- _ _ <-.
  destruct (encode_from_length _ _ Henc) as [Hle Heq].
  exists (List.length encoded), (List.length text).
  repeat split; try assumption; try reflexivity; try apply Heq; auto.
  - intros H. apply Heq. apply str_of_int_inj, H.
  - intros H. apply Heq in H. rewrite H. reflexivity.
Qed.

Lemma byte_count_ge_char_count_witness :
  exists nbytes nchars,
    lit "4" = str_of_int nbytes
    /\ lit "3" = str_of_int nchars
    /\ nchars = List.length [0x63; 0xE9; 0x21]%N
    /\ nchars <= nbytes
    /\ (nbytes = nchars <-> pure_ascii [0x63; 0xE9; 0x21]%N)
    /\ (lit "4" = lit "3" <-> pure_ascii [0x63; 0xE9; 0x21]%N).
Proof.
  exact (@byte_count_ge_char_count
           [0x63; 0xE9; 0x21]%N (lit "4") (lit "0") (lit "1") (lit "3") eq_refl).
Defined.

(** ** The whole pipeline *)

(** [create_output] joins the fields of the output line with tabs, with or
    without flags. *)
Lemma create_output_fields
    (params : bool * bool * bool * bool)
    (values : pystr * pystr * pystr * pystr) (d : decision) :
  create_output params values (last_param_of d)
  = join TAB (output_fields params values d).
Proof.
  destruct params as [[[count lines] words] chars].
  destruct values as [[[b l] w] c].
  destruct count, lines, words, chars, d; reflexivity.
Qed.

Lemma byte_or_char_resolver (ordered_params : list pystr) :
  byte_or_char ordered_params = last_param_of (resolver ordered_params).
Proof. exact (byte_or_char_step_scan ordered_params NONE). Qed.

(** C4, as the code has it.  The text ["Hello world\nThis is a test"] has
    one newline, six words and 26 characters, all ASCII, hence 26 bytes:
    with no flag [parse_file] returns ["1\t6\t26"], a space and the name of
    the source, whatever the flag order. *)
Theorem parse_file_hello (source : pystr) (ordered_params : list pystr) :
  parse_file {| name := source; contents := hello |}
             (false, false, false, false) ordered_params
  = Ok (lit "1" ++ TAB ++ lit "6" ++ TAB ++ lit "26" ++ lit " " ++ source).
Proof. reflexivity. Qed.

(** C4 as stated fails: the byte count printed for that text is 26, not
    27. *)
Lemma parse_file_hello_not_27 :
  parse_file {| name := lit "hello.txt"; contents := hello |}
             (false, false, false, false) []
  <> Ok (lit "1" ++ TAB ++ lit "6" ++ TAB ++ lit "27" ++ lit " hello.txt").
Proof. vm_compute. discriminate. Qed.

(** C9.  When the text can be encoded, [parse_file] returns the fields of
    the output line, each the decimal numeral of a count, in the order
    lines, words, bytes/chars slot, joined by tabs, then one space, then
    [file.name]; when it cannot, the error of the codec is what
    [parse_file] raises. *)
Theorem parse_file_output
    (file : TextIOWrapper) (params : bool * bool * bool * bool)
    (ordered_params : list pystr) :
  match encode_utf8 (read file) with
  | Ok encoded =>
      parse_file file params ordered_params
      = Ok (join TAB
              (output_fields params
                 (str_of_int (List.length encoded),
                  str_of_int (newlines (read file)),
                  str_of_int (maximal_runs (read file)),
                  str_of_int (List.length (read file)))
                 (resolver ordered_params))
            ++ lit " " ++ name file)
  | Raise e => parse_file file params ordered_params = Raise e
  end.
Proof.
  unfold parse_file, get_wc_values.
  destruct (encode_utf8 (read file)) as [encoded|e]; simpl bind; [|reflexivity].
  rewrite comprehension_length, split_length, byte_or_char_resolver.
  rewrite create_output_fields. reflexivity.
Qed.

(** ** The flag order across invocations *)

Section FlagOrder.

Lemma append_each (order opts : list pystr) :
  fold_left (fun opts param => opts ++ [param]) order opts = opts ++ order.
Proof.
  revert opts; induction order as [|param order IH]; intros opts; simpl.
  - rewrite app_nil_r; reflexivity.
  - rewrite IH, <- app_assoc; reflexivity.
Qed.

(** [parse_args] never empties the shared list: what the parser of the
    command reads is added behind what the list already held, whether or
    not click's own [parse_args] then lets the invocation go on. *)
Lemma parse_args_appends
    (st : process) (args order : list pystr) (opened : result TextIOWrapper) :
  Click.parse_order args = Ok order ->
  flag_order_seen st args opened = _options st ++ order.
Proof.
  unfold flag_order_seen, parse_args. intros ->. cbn [snd _options].
  apply append_each.
Qed.

Lemma scan_keeps (flag_order : list pystr) (d : decision) :
  d <> NONE -> scan d flag_order <> NONE.
Proof.
  revert d; induction flag_order as [|tok rest IH]; intros d Hd; simpl.
  - exact Hd.
  - destruct (is_bytes_flag tok); [apply IH; discriminate|].
    destruct (is_chars_flag tok); [apply IH; discriminate|].
    apply IH, Hd.
Qed.

(** A flag that click reports as set was typed, so the resolver sees it. *)
Lemma flag_resolved (order : list pystr) :
  Click.flag (lit "count") order = true -> resolver order <> NONE.
Proof.
  unfold Click.flag, resolver.
  induction order as [|tok rest IH]; cbn [existsb scan]; [discriminate|].
  unfold is_bytes_flag at 1.
  destruct (str_eqb tok (lit "count")) eqn:Htok.
  - intros _. apply scan_keeps; discriminate.
  - destruct (str_eqb (lit "count") tok) eqn:Hsym.
    + apply str_eqb_eq in Hsym; subst tok.
      rewrite str_eqb_refl in Htok; discriminate.
    + cbn [orb]. intros H. destruct (is_chars_flag tok).
      * apply scan_keeps; discriminate.
      * apply IH, H.
Qed.

(** When click's own [parse_args] returns, the order it returns is the one
    the parser of the command read. *)
Lemma command_parse_args_order
    (args order : list pystr) (opened : result TextIOWrapper)
    (file : TextIOWrapper) :
  Click.command_parse_args args opened = Ok (order, file) ->
  Click.parse_order args = Ok order.
Proof.
  unfold Click.command_parse_args, Click.parse_order.
  destruct (Click.parse_options args) as [[names positional]|e];
    cbn [bind fst snd]; [|discriminate].
  destruct (find Click.is_eager (names ++ [lit "file"])); [discriminate|].
  destruct opened as [f|e]; cbn [bind]; [|discriminate].
  destruct positional as [|first [|second extra]]; intros H;
    try discriminate H; injection H as <- _; reflexivity.
Qed.

(** The formatter, called with the flags of a run and with the decision
    read from a list that ends with the order of that run, returns what it
    returns on the order of the run alone: when both flags are set the run
    typed both, and its own tokens come last; otherwise the decision is not
    read. *)
Lemma create_output_own_order
    (earlier order : list pystr) (values : pystr * pystr * pystr * pystr) :
  create_output
    (Click.flag (lit "count") order, Click.flag (lit "lines") order,
     Click.flag (lit "words") order, Click.flag (lit "chars") order)
    values (byte_or_char (earlier ++ order))
  = create_output
      (Click.flag (lit "count") order, Click.flag (lit "lines") order,
       Click.flag (lit "words") order, Click.flag (lit "chars") order)
      values (byte_or_char order).
Proof.
  destruct (Click.flag (lit "count") order && Click.flag (lit "chars") order)
    eqn:Hboth.
  - apply andb_true_iff in Hboth. destruct Hboth as [Hcount _].
    apply flag_resolved in Hcount.
    rewrite !byte_or_char_resolver. unfold resolver at 1.
    rewrite scan_app, (@scan_decided order _ Hcount). reflexivity.
  - apply create_output_last_param_unread, Hboth.
Qed.

Lemma invoke_output_state_free
    (st st' : process) (args : list pystr) (opened : result TextIOWrapper) :
  fst (invoke st args opened) = fst (invoke st' args opened).
Proof.
  unfold invoke, parse_args.
  destruct (Click.parse_order args) as [order|e] eqn:Horder; [|reflexivity].
  destruct (Click.command_parse_args args opened) as [[order' file]|e]
    eqn:Hcommand; [|reflexivity].
  apply command_parse_args_order in Hcommand.
  rewrite Horder in Hcommand. injection Hcommand as <-.
  cbn [fst]. unfold cli. cbn [_options]. rewrite !append_each.
  unfold parse_file.
  destruct (get_wc_values (read file)) as [values|e]; [|reflexivity].
  cbn [bind]. do 2 f_equal.
  rewrite !create_output_own_order. reflexivity.
Qed.

End FlagOrder.

(** The entries a first invocation left in the shared list change nothing in
    what a later invocation prints: when both flags are set the later
    invocation typed both, and its own tokens come last. *)
Theorem invoke_output_ignores_leftovers
    (st st' : process) (args : list pystr) (opened : result TextIOWrapper) :
  fst (invoke st args opened) = fst (invoke st' args opened).
Proof. apply invoke_output_state_free. Qed.

(** C8.  Two runs on the same inputs give the same output, and the state
    that outlives a run has no part in it.  The one place where such state
    is read is [cli], which hands the shared list to [parse_file]: a run of
    the command on given arguments and a given file returns the same
    result after any runs before it in the same interpreter as without
    them; and the formatter, called as [cli] has it called, with the flags
    of the run and the decision read from the list the earlier runs have
    grown, returns what it returns with the decision of the run's own flag
    order. *)
Theorem same_inputs_same_output
    (st : process) (runs : list (list pystr * result TextIOWrapper))
    (args : list pystr) (opened : result TextIOWrapper)
    (earlier order : list pystr) (values : pystr * pystr * pystr * pystr) :
  fst (invoke (invoke_all st runs) args opened) = fst (invoke st args opened)
  /\ create_output
       (Click.flag (lit "count") order, Click.flag (lit "lines") order,
        Click.flag (lit "words") order, Click.flag (lit "chars") order)
       values (byte_or_char (earlier ++ order))
     = create_output
         (Click.flag (lit "count") order, Click.flag (lit "lines") order,
          Click.flag (lit "words") order, Click.flag (lit "chars") order)
         values (byte_or_char order).
Proof.
  split.
  - apply invoke_output_state_free.
  - apply create_output_own_order.
Qed.

(** C1 fails on the code.  The interpreter imports the module, the command
    runs on [-c a.txt] and then on [-m a.txt]: the flag order the second
    invocation hands to [parse_file] still holds the [count] and [file] of
    the first, in front of its own [chars] and [file]; started from the
    empty list it would hold those two alone. *)
Theorem flag_order_carries_over :
  let file := {| name := lit "a.txt"; contents := hello |} in
  let after_first := snd (invoke at_import [lit "-c"; lit "a.txt"] (Ok file)) in
  flag_order_seen after_first [lit "-m"; lit "a.txt"] (Ok file)
  = [lit "count"; lit "file"; lit "chars"; lit "file"]
  /\ flag_order_seen at_import [lit "-m"; lit "a.txt"] (Ok file)
     = [lit "chars"; lit "file"]
  /\ In (lit "count")
        (flag_order_seen after_first [lit "-m"; lit "a.txt"] (Ok file)).
Proof.
  repeat split; try reflexivity. left; reflexivity.
Qed.

(** ** More on the flag order *)

Section Accumulation.

Lemma invoke_state
    (st : process) (args : list pystr) (opened : result TextIOWrapper) :
  snd (invoke st args opened) = snd (parse_args st args opened).
Proof.
  unfold invoke.
  destruct (parse_args st args opened) as [[[order file]|e] st']; reflexivity.
Qed.

Lemma invoke_options
    (st : process) (args : list pystr) (opened : result TextIOWrapper) :
  _options (snd (invoke st args opened))
  = _options st ++ match Click.parse_order args with
                   | Ok order => order
                   | Raise _ => []
                   end.
Proof.
  rewrite invoke_state. unfold parse_args.
  destruct (Click.parse_order args) as [order|e]; cbn [snd _options].
  - apply append_each.
  - rewrite app_nil_r; reflexivity.
Qed.

(** The scan started from a marker ends on the order's own decision, or on
    the marker when the order names neither flag. *)
Lemma scan_from (flag_order : list pystr) (d : decision) :
  scan d flag_order
  = match resolver flag_order with
    | NONE => d
    | own => own
    end.
Proof.
  unfold resolver; revert d.
  induction flag_order as [|tok rest IH]; intros d; cbn [scan].
  - reflexivity.
  - destruct (is_bytes_flag tok).
    + rewrite (IH BYTES). destruct (scan NONE rest); reflexivity.
    + destruct (is_chars_flag tok).
      * rewrite (IH CHARS). destruct (scan NONE rest); reflexivity.
      * apply IH.
Qed.

End Accumulation.

(** Four invocations started right after import.  One with a second path,
    one with [--help] and one with a path that cannot be opened are stopped
    by click's own [parse_args], after their names were appended; one with
    an option that does not exist is stopped by the parser of the command,
    before anything is appended. *)
Example invocations_stopped :
  let file := {| name := lit "a.txt"; contents := hello |} in
  invoke at_import [lit "-c"; lit "a.txt"; lit "b.txt"] (Ok file)
  = (Raise (ExtraArguments [lit "b.txt"]),
     {| _options := [lit "count"; lit "file"] |})
  /\ invoke at_import [lit "--help"] (Ok file)
     = (Raise (Exit (lit "help")), {| _options := [lit "help"; lit "file"] |})
  /\ invoke at_import [lit "-c"; lit "none.txt"]
            (Raise (BadParameter (lit "none.txt")))
     = (Raise (BadParameter (lit "none.txt")),
        {| _options := [lit "count"; lit "file"] |})
  /\ invoke at_import [lit "-cx"; lit "a.txt"] (Ok file)
     = (Raise (NoSuchOption (lit "-x")), at_import).
Proof. repeat split; reflexivity. Qed.

(** The shared list over a whole run of invocations: it holds what it held
    before the run, then, for each argument list the parser of the command
    could read, the names that parser read, in order, and this also when
    click's own [parse_args] then stopped that invocation (a second path, a
    file that cannot be opened, [--help], [--version]).  Only an
    invocation whose arguments that parser refuses adds nothing, and no
    invocation removes anything. *)
Theorem options_only_grow
    (runs : list (list pystr * result TextIOWrapper)) (st : process) :
  _options (invoke_all st runs) = _options st ++ parsed_orders runs
  /\ (forall args opened order,
         Click.parse_order args = Ok order ->
         _options (snd (invoke st args opened)) = _options st ++ order)
  /\ (forall args opened e,
         Click.parse_order args = Raise e ->
         invoke st args opened = (Raise e, st)).
Proof.
  split; [|split].
  - unfold invoke_all, parsed_orders.
    revert st; induction runs as [|[args opened] runs IH]; intros st;
      cbn [fold_left flat_map fst snd].
    + rewrite app_nil_r; reflexivity.
    + rewrite IH, invoke_options, <- app_assoc. reflexivity.
  - intros args opened order Horder.
    rewrite invoke_options, Horder. reflexivity.
  - intros args opened e Horder.
    unfold invoke, parse_args. rewrite Horder. reflexivity.
Qed.

(** [byte_or_char] over two flag orders put end to end: the later order
    decides when it names one of the two flags, and otherwise the decision
    of the earlier order stands. *)
Theorem byte_or_char_app (earlier later : list pystr) :
  byte_or_char (earlier ++ later)
  = match byte_or_char later with
    | Some last_param => Some last_param
    | None => byte_or_char earlier
    end.
Proof.
  rewrite !byte_or_char_resolver. unfold resolver at 1.
  rewrite scan_app, scan_from.
  destruct (resolver later); reflexivity.
Qed.

(** When click accepts the arguments of an invocation (every option
    exists, neither [--help] nor [--version] is typed, the file opens and
    there is no second path), both [-c] and [-m] are typed (in any
    spelling), and the text can be counted, the line the invocation prints
    holds the lines and words that were asked for and then one number: the
    byte count when the last of the two flags typed is the bytes flag, the
    char count when it is the chars flag; what earlier invocations left in
    the shared list plays no part. *)
Theorem invoke_both_flags_last_wins
    (st : process) (args order : list pystr)
    (opened : result TextIOWrapper) (file : TextIOWrapper)
    (byte_count line_count word_count char_count : pystr) :
  Click.command_parse_args args opened = Ok (order, file) ->
  Click.flag (lit "count") order = true ->
  Click.flag (lit "chars") order = true ->
  get_wc_values (read file)
  = Ok (byte_count, line_count, word_count, char_count) ->
  resolver order <> NONE
  /\ invoke st args opened
     = (Ok (join TAB
              ((if Click.flag (lit "lines") order then [line_count] else [])
               ++ (if Click.flag (lit "words") order then [word_count] else [])
               ++ [match resolver order with
                   | BYTES => byte_count
                   | CHARS | NONE => char_count
                   end])
            ++ lit " " ++ name file),
        {| _options := _options st ++ order |}).
Proof.
  intros Hcommand Hcount Hchars Hvalues.
  pose proof (flag_resolved _ Hcount) as Hres.
  split; [exact Hres|].
  pose proof (command_parse_args_order _ _ Hcommand) as Horder.
  unfold invoke, parse_args. rewrite Horder, Hcommand.
  unfold cli. cbn [_options]. rewrite append_each.
  unfold parse_file. rewrite Hvalues. cbn [bind].
  rewrite Hcount, Hchars.
  rewrite byte_or_char_resolver. unfold resolver at 1.
  rewrite scan_app, (@scan_decided order _ Hres).
  do 3 f_equal.
  destruct (Click.flag (lit "lines") order), (Click.flag (lit "words") order),
    (resolver order); reflexivity.
Qed.

Lemma invoke_both_flags_last_wins_witness :
  resolver [lit "chars"; lit "count"; lit "file"] <> NONE
  /\ invoke at_import [lit "-m"; lit "-c"; lit "a.txt"]
            (Ok {| name := lit "a.txt"; contents := [0x63; 0xE9; 0x21]%N |})
     = (Ok (join TAB
              ((if Click.flag (lit "lines") [lit "chars"; lit "count"; lit "file"]
                then [lit "0"] else [])
               ++ (if Click.flag (lit "words") [lit "chars"; lit "count"; lit "file"]
                   then [lit "1"] else [])
               ++ [match resolver [lit "chars"; lit "count"; lit "file"] with
                   | BYTES => lit "4"
                   | CHARS | NONE => lit "3"
                   end])
            ++ lit " "
            ++ name {| name := lit "a.txt"; contents := [0x63; 0xE9; 0x21]%N |}),
        {| _options :=
             _options at_import ++ [lit "chars"; lit "count"; lit "file"] |}).
Proof.
  exact (@invoke_both_flags_last_wins
           at_import [lit "-m"; lit "-c"; lit "a.txt"]
           [lit "chars"; lit "count"; lit "file"]
           (Ok {| name := lit "a.txt"; contents := [0x63; 0xE9; 0x21]%N |})
           {| name := lit "a.txt"; contents := [0x63; 0xE9; 0x21]%N |}
           (lit "4") (lit "0") (lit "1") (lit "3")
           eq_refl eq_refl eq_refl eq_refl).
Defined.

(** ** More on the counter *)

Section CounterFacts.

(** The codec stops at the first surrogate and names its place. *)
Lemma encode_from_first_surrogate (text : pystr) (pos : nat) :
  (no_surrogate text /\ exists encoded, encode_from pos text = Ok encoded)
  \/ (exists i c,
         encode_from pos text = Raise (UnicodeEncodeError (pos + i) c)
         /\ nth_error text i = Some c
         /\ is_surrogate c = true
         /\ no_surrogate (firstn i text)).
Proof.
  revert pos; induction text as [|a text IH]; intros pos.
  - left. split; [constructor | eexists; reflexivity].
  - cbn [encode_from].
    destruct (encode_char a) as [bs|] eqn:Ha.
    + assert (Hs : is_surrogate a = false).
      { destruct (is_surrogate a) eqn:Hs; [|reflexivity].
        apply encode_char_surrogate in Hs. congruence. }
      destruct (IH (S pos)) as [[Hno [rest Hrest]] | [i [c [Hr [Hn [Hc Hpre]]]]]].
      * left. split; [constructor; assumption|].
        rewrite Hrest. eexists; reflexivity.
      * right. exists (S i), c. rewrite Hr.
        replace (pos + S i) with (S pos + i) by lia.
        repeat split; try assumption.
        cbn [firstn]. constructor; assumption.
    + right. exists 0, a. rewrite Nat.add_0_r.
      repeat split.
      * apply encode_char_surrogate, Ha.
      * constructor.
Qed.

Lemma encode_char_at_most_4 (c : codepoint) (bs : pybytes) :
  encode_char c = Some bs -> List.length bs <= 4.
Proof.
  unfold encode_char.
  destruct (c <? 0x80)%N; [intros H; injection H as <-; simpl; lia|].
  destruct (c <? 0x800)%N; [intros H; injection H as <-; simpl; lia|].
  destruct (c <? 0x10000)%N.
  - destruct (is_surrogate c); [discriminate|].
    intros H; injection H as <-; simpl; lia.
  - intros H; injection H as <-; simpl; lia.
Qed.

Lemma encode_from_at_most_4 (text : pystr) (pos : nat) (encoded : pybytes) :
  encode_from pos text = Ok encoded ->
  List.length encoded <= 4 * List.length text.
Proof.
  revert pos encoded; induction text as [|c text IH]; intros pos encoded;
    cbn [encode_from].
  - intros H; injection H as <-; simpl; lia.
  - destruct (encode_char c) as [bs|] eqn:Hbs; [|discriminate].
    destruct (encode_from (S pos) text) as [rest|] eqn:Hrest; [|discriminate].
    cbn [bind]. intros H; injection H as <-.
    apply encode_char_at_most_4 in Hbs. apply IH in Hrest.
    rewrite length_app. cbn [List.length]. lia.
Qed.

(** What is encoded does not depend on where the count of positions
    starts. *)
Lemma encode_from_any_pos (t : pystr) (pos pos' : nat) (b : pybytes) :
  encode_from pos t = Ok b -> encode_from pos' t = Ok b.
Proof.
  revert pos pos' b; induction t as [|c t IH]; intros pos pos' b;
    cbn [encode_from].
  - intros H; exact H.
  - destruct (encode_char c) as [bs|]; [|discriminate].
    destruct (encode_from (S pos) t) as [rest|] eqn:Hrest; [|discriminate].
    cbn [bind]. intros H; injection H as <-.
    rewrite (@IH (S pos) (S pos') rest Hrest). reflexivity.
Qed.

(** The encoding of [s ++ t] is that of [s], then that of [t]. *)
Lemma encode_from_app (s t : pystr) (pos pos' : nat) (a b : pybytes) :
  encode_from pos s = Ok a -> encode_from pos' t = Ok b ->
  encode_from pos (s ++ t) = Ok (a ++ b).
Proof.
  revert pos a; induction s as [|c s IH]; intros pos a;
    cbn [app]; cbn [encode_from].
  - intros H Ht; injection H as <-. cbn [app].
    exact (@encode_from_any_pos t pos' pos b Ht).
  - destruct (encode_char c) as [bs|] eqn:Hc; [|discriminate].
    destruct (encode_from (S pos) s) as [rest|] eqn:Hrest; [|discriminate].
    cbn [bind]. intros H Ht; injection H as <-.
    change ((c :: s) ++ t) with (c :: (s ++ t)). cbn [encode_from].
    rewrite Hc, (IH _ _ Hrest Ht). cbn [bind].
    rewrite app_assoc. reflexivity.
Qed.

Lemma runs_after_nil (before : bool) : runs_after before [] = 0.
Proof. reflexivity. Qed.

(** A newline is whitespace, and a run needs a character that is not. *)
Lemma runs_newlines_length (text : pystr) (before : bool) :
  newlines text + runs_after before text <= List.length text.
Proof.
  revert before; induction text as [|c text IH]; intros before.
  - rewrite runs_after_nil. unfold newlines. simpl. lia.
  - rewrite runs_after_cons. unfold newlines in *. cbn [List.length].
    specialize (IH (isspace c)).
    destruct (N.eq_dec c NEWLINE) as [->|Hne].
    + rewrite count_occ_cons_eq by reflexivity.
      replace (isspace NEWLINE) with true in * by reflexivity.
      cbn [negb andb]. unfold codepoint in *. lia.
    + rewrite count_occ_cons_neq by exact Hne.
      unfold codepoint in *. destruct (negb (isspace c) && before); lia.
Qed.

(** Two runs are at least one whitespace character apart. *)
Lemma runs_twice_length (text : pystr) (before : bool) :
  2 * runs_after before text
  <= List.length text + (if before then 1 else 0).
Proof.
  revert before; induction text as [|c text IH]; intros before.
  - rewrite runs_after_nil. simpl. lia.
  - rewrite runs_after_cons. cbn [List.length].
    specialize (IH (isspace c)).
    destruct (isspace c), before; cbn [negb andb] in *; lia.
Qed.

Lemma runs_after_head (t : pystr) :
  runs_after true t
  = runs_after false t + (if negb (isspace (hd 32%N t)) then 1 else 0).
Proof.
  destruct t as [|c t].
  - reflexivity.
  - rewrite !runs_after_cons. cbn [hd].
    destruct (isspace c); cbn [negb andb]; lia.
Qed.

Lemma runs_after_app (s t : pystr) (before : bool) :
  runs_after before (s ++ t)
  = runs_after before s
    + runs_after (match s with [] => before | _ :: _ => isspace (last s 32%N) end) t.
Proof.
  revert before; induction s as [|c s IH]; intros before.
  - rewrite runs_after_nil. reflexivity.
  - rewrite <- app_comm_cons, !runs_after_cons, IH.
    destruct s as [|c' s]; [cbn [last]; lia|].
    change (last (c :: c' :: s) 32%N) with (last (c' :: s) 32%N). lia.
Qed.

(** The words of [s ++ t] are those of [s] and those of [t], less one when
    the two meet inside a word. *)
Lemma maximal_runs_app (s t : pystr) :
  maximal_runs (s ++ t) + (if glued s t then 1 else 0)
  = maximal_runs s + maximal_runs t.
Proof.
  unfold maximal_runs, glued.
  destruct s as [|c s].
  - rewrite app_nil_l, runs_after_nil.
    change (negb (isspace (last [] 32%N)) && negb (isspace (hd 32%N t)))
      with false.
    cbv iota. lia.
  - rewrite runs_after_app, (runs_after_head t).
    destruct (isspace (last (c :: s) 32%N)); cbn [negb andb].
    + rewrite <- (runs_after_head t). lia.
    + destruct (negb (isspace (hd 32%N t))); lia.
Qed.

Lemma split_from_started (text word : pystr) :
  word <> [] -> split_from word text <> [].
Proof.
  revert word; induction text as [|c text IH]; intros word Hword;
    cbn [split_from].
  - destruct word; [contradiction Hword; reflexivity | discriminate].
  - destruct (isspace c).
    + destruct word; [contradiction Hword; reflexivity | discriminate].
    + apply IH; discriminate.
Qed.

(** [split] finds no word exactly in a text of whitespace. *)
Lemma split_nil (text : pystr) :
  split text = [] <-> forallb isspace text = true.
Proof.
  unfold split. induction text as [|c text IH]; cbn [split_from forallb].
  - split; reflexivity.
  - destruct (isspace c); cbn [flush app andb].
    + exact IH.
    + split; [|discriminate].
      intros H. contradiction (@split_from_started text [c]); discriminate.
Qed.

Lemma digits_are_digits (u : Decimal.uint) (c : codepoint) :
  In c (digits u) -> (48 <= c <= 57)%N.
Proof.
  induction u; cbn [digits In]; intros H;
    try contradiction; destruct H as [<-|H]; try (apply IHu, H); lia.
Qed.

(** A numeral holds no tab. *)
Lemma str_of_int_no_tab (n : nat) : tabs (str_of_int n) = 0.
Proof.
  unfold tabs, str_of_int. apply count_occ_not_In.
  intros H. apply digits_are_digits in H. lia.
Qed.

Lemma tabs_app (s t : pystr) : tabs (s ++ t) = tabs s + tabs t.
Proof. apply count_occ_app. Qed.

Lemma str_of_int_zero (n : nat) : str_of_int n = lit "0" <-> n = 0.
Proof.
  split; [|intros ->; reflexivity].
  intros H. apply str_of_int_inj. rewrite H. reflexivity.
Qed.

(** What [get_wc_values] returns, read back as numbers. *)
Lemma get_wc_values_numbers
    (text byte_count line_count word_count char_count : pystr) :
  get_wc_values text = Ok (byte_count, line_count, word_count, char_count) ->
  exists encoded,
    encode_utf8 text = Ok encoded
    /\ byte_count = str_of_int (List.length encoded)
    /\ line_count = str_of_int (newlines text)
    /\ word_count = str_of_int (List.length (split text))
    /\ char_count = str_of_int (List.length text).
Proof.
  unfold get_wc_values.
  destruct (encode_utf8 text) as [encoded|e]; [|discriminate].
  cbn [bind]. rewrite comprehension_length.
  intros H; injection H as <- <- <- <-.
  exists encoded. repeat split; reflexivity.
Qed.

End CounterFacts.

(** [get_wc_values] either returns, on a text without surrogates, or raises
    [UnicodeEncodeError] at the index of the first surrogate of the text,
    with that character; [parse_file] then raises the same error and builds
    no line. *)
Theorem get_wc_values_raises_at_first_surrogate (text : pystr) :
  (no_surrogate text /\ exists values, get_wc_values text = Ok values)
  \/ (exists i c,
         get_wc_values text = Raise (UnicodeEncodeError i c)
         /\ nth_error text i = Some c
         /\ is_surrogate c = true
         /\ no_surrogate (firstn i text)
         /\ forall source params ordered_params,
              parse_file {| name := source; contents := text |}
                         params ordered_params
              = Raise (UnicodeEncodeError i c)).
Proof.
  destruct (encode_from_first_surrogate text 0)
    as [[Hno [encoded Henc]] | [i [c [Hr [Hn [Hc Hpre]]]]]].
  - left. split; [exact Hno|].
    unfold get_wc_values, encode_utf8. rewrite Henc. cbn [bind].
    eexists; reflexivity.
  - right. exists i, c.
    assert (Hraise : get_wc_values text = Raise (UnicodeEncodeError i c)).
    { unfold get_wc_values, encode_utf8. rewrite Hr. reflexivity. }
    repeat split; try assumption.
    intros source params ordered_params.
    unfold parse_file, read. cbn [contents]. rewrite Hraise. reflexivity.
Qed.

(** The four counts of one text are tied together: the newlines and the
    words together are no more than the characters, twice the words are at
    most one more than the characters, and the bytes are at most four times
    the characters. *)
Theorem counts_bounds
    (text byte_count line_count word_count char_count : pystr) :
  get_wc_values text = Ok (byte_count, line_count, word_count, char_count) ->
  exists nbytes nlines nwords nchars,
    byte_count = str_of_int nbytes
    /\ line_count = str_of_int nlines
    /\ word_count = str_of_int nwords
    /\ char_count = str_of_int nchars
    /\ nlines + nwords <= nchars
    /\ 2 * nwords <= nchars + 1
    /\ nbytes <= 4 * nchars.
Proof.
  intros H. apply get_wc_values_numbers in H.
  destruct H as [encoded [Henc [-> [-> [-> ->]]]]].
  exists (List.length encoded), (newlines text),
    (List.length (split text)), (List.length text).
  repeat split.
  - rewrite split_length. apply runs_newlines_length.
  - rewrite split_length. unfold maximal_runs.
    pose proof (runs_twice_length text true) as Hb. cbv iota in Hb. exact Hb.
  - exact (encode_from_at_most_4 _ _ Henc).
Qed.

Lemma counts_bounds_witness :
  exists nbytes nlines nwords nchars,
    lit "26" = str_of_int nbytes
    /\ lit "1" = str_of_int nlines
    /\ lit "6" = str_of_int nwords
    /\ lit "26" = str_of_int nchars
    /\ nlines + nwords <= nchars
    /\ 2 * nwords <= nchars + 1
    /\ nbytes <= 4 * nchars.
Proof.
  exact (@counts_bounds hello (lit "26") (lit "1") (lit "6") (lit "26") eq_refl).
Defined.

(** Counting a text in two pieces: the bytes, the newlines and the
    characters of [s ++ t] are the sums of those of [s] and of [t]; the
    words are the sum too, less one when [s] ends and [t] starts inside a
    word. *)
Theorem get_wc_values_app
    (s t : pystr) (b1 l1 w1 c1 b2 l2 w2 c2 : nat) :
  get_wc_values s
  = Ok (str_of_int b1, str_of_int l1, str_of_int w1, str_of_int c1) ->
  get_wc_values t
  = Ok (str_of_int b2, str_of_int l2, str_of_int w2, str_of_int c2) ->
  get_wc_values (s ++ t)
  = Ok (str_of_int (b1 + b2), str_of_int (l1 + l2),
        str_of_int (w1 + w2 - (if glued s t then 1 else 0)),
        str_of_int (c1 + c2)).
Proof.
  intros Hs Ht.
  apply get_wc_values_numbers in Hs, Ht.
  destruct Hs as [es [Hes [Hb1 [Hl1 [Hw1 Hc1]]]]].
  destruct Ht as [et [Het [Hb2 [Hl2 [Hw2 Hc2]]]]].
  apply str_of_int_inj in Hb1, Hl1, Hw1, Hc1, Hb2, Hl2, Hw2, Hc2. subst.
  unfold get_wc_values, encode_utf8 in *.
  rewrite (@encode_from_app s t 0 0 es et Hes Het). cbn [bind].
  rewrite comprehension_length, !split_length, !length_app.
  pose proof (maximal_runs_app s t) as Hw.
  unfold newlines. rewrite count_occ_app.
  repeat f_equal.
  destruct (glued s t); lia.
Qed.

Lemma get_wc_values_app_witness :
  get_wc_values (lit "ab" ++ lit "cd e")
  = Ok (str_of_int (2 + 4), str_of_int (0 + 0),
        str_of_int (1 + 2 - (if glued (lit "ab") (lit "cd e") then 1 else 0)),
        str_of_int (2 + 4)).
Proof.
  exact (@get_wc_values_app (lit "ab") (lit "cd e") 2 0 1 2 4 0 2 4
           eq_refl eq_refl).
Defined.

(** On the counts of [get_wc_values], whatever the flags and whatever
    [last_param] is, [create_output] writes one tab less than it writes
    counts, and it writes one, two or three counts: bytes and chars share
    one place, so four flags still give three counts. *)
Theorem create_output_tabs
    (text : pystr) (params : bool * bool * bool * bool)
    (values : pystr * pystr * pystr * pystr) (last_param : option pystr) :
  get_wc_values text = Ok values ->
  tabs (create_output params values last_param) = field_count params - 1
  /\ 1 <= field_count params <= 3.
Proof.
  destruct values as [[[b l] w] c]. intros H.
  apply get_wc_values_numbers in H.
  destruct H as [encoded [_ [-> [-> [-> ->]]]]].
  destruct params as [[[count lines] words] chars].
  pose proof (str_of_int_no_tab (List.length encoded)) as Hb.
  pose proof (str_of_int_no_tab (newlines text)) as Hl.
  pose proof (str_of_int_no_tab (List.length (split text))) as Hw.
  pose proof (str_of_int_no_tab (List.length text)) as Hc.
  assert (Ht : forall x y, tabs (x ++ 9%N :: y) = tabs x + S (tabs y)).
  { intros x y. rewrite tabs_app. unfold tabs at 2.
    rewrite count_occ_cons_eq by reflexivity. reflexivity. }
  unfold create_output, field_count.
  destruct count, lines, words, chars;
    try destruct (opt_str_eqb last_param (lit "count"));
    cbn - [tabs str_of_int split newlines];
    rewrite ?Ht, ?Hb, ?Hl, ?Hw, ?Hc; lia.
Qed.

Lemma create_output_tabs_witness :
  tabs (create_output (true, true, true, true)
                      (lit "26", lit "1", lit "6", lit "26")
                      (Some (lit "count")))
  = field_count (true, true, true, true) - 1
  /\ 1 <= field_count (true, true, true, true) <= 3.
Proof.
  exact (@create_output_tabs hello (true, true, true, true)
           (lit "26", lit "1", lit "6", lit "26") (Some (lit "count")) eq_refl).
Defined.

(** When a count is zero: the bytes and the characters on the empty text
    alone, the lines on a text without newline, the words on a text of
    whitespace. *)
Theorem zero_counts
    (text byte_count line_count word_count char_count : pystr) :
  get_wc_values text = Ok (byte_count, line_count, word_count, char_count) ->
  (byte_count = lit "0" <-> text = [])
  /\ (char_count = lit "0" <-> text = [])
  /\ (line_count = lit "0" <-> ~ In NEWLINE text)
  /\ (word_count = lit "0" <-> forallb isspace text = true).
Proof.
  intros H. apply get_wc_values_numbers in H.
  destruct H as [encoded [Henc [-> [-> [-> ->]]]]].
  rewrite !str_of_int_zero.
  destruct (encode_from_length _ _ Henc) as [Hle _].
  repeat split.
  - intros H0. apply length_zero_iff_nil. lia.
  - intros ->. unfold encode_utf8 in Henc. cbn [encode_from] in Henc.
    injection Henc as <-. reflexivity.
  - apply length_zero_iff_nil.
  - intros ->. reflexivity.
  - intros H0. apply (count_occ_not_In N.eq_dec). exact H0.
  - intros H0. apply (count_occ_not_In N.eq_dec) in H0. exact H0.
  - intros H0. apply split_nil, length_zero_iff_nil, H0.
  - intros H0. apply split_nil in H0. rewrite H0. reflexivity.
Qed.

Lemma zero_counts_witness :
  (lit "3" = lit "0" <-> [32; 9; 10]%N = [])
  /\ (lit "3" = lit "0" <-> [32; 9; 10]%N = [])
  /\ (lit "1" = lit "0" <-> ~ In NEWLINE [32; 9; 10]%N)
  /\ (lit "0" = lit "0" <-> forallb isspace [32; 9; 10]%N = true).
Proof.
  exact (@zero_counts [32; 9; 10]%N (lit "3") (lit "1") (lit "0") (lit "3")
           eq_refl).
Defined.

(** With both the bytes flag and the chars flag set, [create_output]
    writes what it would write for one of them alone: for the bytes flag
    when [last_param] is ["count"], for the chars flag when it is anything
    else, [None] and strings that name no flag included. *)
Theorem create_output_both_as_one
    (lines words : bool) (values : pystr * pystr * pystr * pystr)
    (last_param other : option pystr) :
  create_output (true, lines, words, true) values last_param
  = if opt_str_eqb last_param (lit "count")
    then create_output (true, lines, words, false) values other
    else create_output (false, lines, words, true) values other.
Proof.
  destruct values as [[[b l] w] c]. unfold create_output.
  destruct lines, words, (opt_str_eqb last_param (lit "count")); reflexivity.
Qed.
